(** * The layered 3D-to-2D shaded renderer of [scripts/generate_app_icon.py]

    A shallow embedding of the [IconGenerator] class: the tilt
    ([transform_meshes]), the fit into the canvas ([compute_bounds],
    [normalize_meshes]), the shading ([compute_lighting] and the colour code
    of [generate_svg]) and the painter's loop of [generate_svg].

    Numbers.  The script computes in binary64 floats.  Here a float is a real
    number: rounding, infinities and NaN have no counterpart.  The two places
    where numpy leaves the finite numbers are marked: the division that gives
    [scale] in [normalize_meshes] is partial ([np_true_divide]), and
    [np_mean] of an empty array (NaN in numpy) is used only under the
    hypothesis that the array has an element. *)

From Stdlib Require Import String DecimalString Bool.
From Stdlib Require Import Reals Zfloor Lra Lia ZArith List Permutation Sorted.
Import ListNotations.

Open Scope R_scope.

(** ** Outcomes *)

(** The Python exceptions the modelled code can raise. *)
Inductive exn : Type :=
| ValueError   (* a reduction over an empty array *)
| IndexError.  (* a face that names a vertex the mesh does not have *)

(** The outcome of a call.  [NonFinite] is not an exception: numpy divided by
    zero, warned, and went on with inf or nan.  Exact arithmetic has no such
    value, so the run is not followed any further. *)
Inductive result (A : Type) : Type :=
| Ok (a : A)
| Raise (e : exn)
| NonFinite.

Arguments Ok {A} a.
Arguments Raise {A} e.
Arguments NonFinite {A}.

Definition bind {A B : Type} (c : result A) (k : A -> result B) : result B :=
  match c with
  | Ok a => k a
  | Raise e => Raise e
  | NonFinite => NonFinite
  end.

Notation "x <- c ;; k" := (bind c (fun x => k))
  (at level 61, c at next level, right associativity).

(** A [for] loop that collects one value per element and stops at the first
    element that does not return. *)
Fixpoint for_each {A B : Type} (f : A -> result B) (l : list A)
  : result (list B) :=
  match l with
  | [] => Ok []
  | a :: t => b <- f a ;; bs <- for_each f t ;; Ok (b :: bs)
  end.

(** ** Vectors and matrices (numpy arrays of shape (3,) and (3,3)) *)

Record vec3 : Type := V3 { vx : R; vy : R; vz : R }.

Definition vsub (a b : vec3) : vec3 :=
  V3 (vx a - vx b) (vy a - vy b) (vz a - vz b).

Definition vadd (a b : vec3) : vec3 :=
  V3 (vx a + vx b) (vy a + vy b) (vz a + vz b).

Definition vscale (a : vec3) (k : R) : vec3 :=
  V3 (vx a * k) (vy a * k) (vz a * k).

Definition vdiv (a : vec3) (k : R) : vec3 :=
  V3 (vx a / k) (vy a / k) (vz a / k).

(** [np.dot] *)
Definition dot (a b : vec3) : R :=
  vx a * vx b + vy a * vy b + vz a * vz b.

(** [np.cross] *)
Definition cross (a b : vec3) : vec3 :=
  V3 (vy a * vz b - vz a * vy b)
     (vz a * vx b - vx a * vz b)
     (vx a * vy b - vy a * vx b).

(** [np.linalg.norm] *)
Definition norm (a : vec3) : R := sqrt (dot a a).

(** A 3x3 matrix, by rows. *)
Record mat3 : Type := M3 { row0 : vec3; row1 : vec3; row2 : vec3 }.

Definition col0 (m : mat3) : vec3 := V3 (vx (row0 m)) (vx (row1 m)) (vx (row2 m)).
Definition col1 (m : mat3) : vec3 := V3 (vy (row0 m)) (vy (row1 m)) (vy (row2 m)).
Definition col2 (m : mat3) : vec3 := V3 (vz (row0 m)) (vz (row1 m)) (vz (row2 m)).

Definition mat_vec (m : mat3) (v : vec3) : vec3 :=
  V3 (dot (row0 m) v) (dot (row1 m) v) (dot (row2 m) v).

Definition mat_mul (a b : mat3) : mat3 :=
  let r := fun u => V3 (dot u (col0 b)) (dot u (col1 b)) (dot u (col2 b)) in
  M3 (r (row0 a)) (r (row1 a)) (r (row2 a)).

Definition mat_add (a b : mat3) : mat3 :=
  M3 (vadd (row0 a) (row0 b)) (vadd (row1 a) (row1 b)) (vadd (row2 a) (row2 b)).

(** ** The data: meshes and the generator *)

(** A face is three indices into the vertex array of its own mesh. *)
Definition Face : Type := (nat * nat * nat)%type.

(** [trimesh.Trimesh], as far as the script reads it. *)
Record Trimesh : Type := { vertices : list vec3; faces : list Face }.

(** [IconGenerator]: [self.icon_size] and [self.meshes], the list of
    (mesh, layer_number) pairs.  Every entry owns its mesh
    ([load_stl_layers] loads one object per entry). *)
Record IconGenerator : Type :=
  { icon_size : Z; meshes : list (Trimesh * Z) }.

Definition set_vertices (f : vec3 -> vec3) (m : Trimesh) : Trimesh :=
  {| vertices := map f (vertices m); faces := faces m |}.

Definition map_meshes (f : vec3 -> vec3) (self : IconGenerator) : IconGenerator :=
  {| icon_size := icon_size self;
     meshes := map (fun e => (set_vertices f (fst e), snd e)) (meshes self) |}.

(** ** RigidTransformer: [transform_meshes] *)

(** [math.radians] *)
Definition radians (deg : R) : R := deg * PI / 180.

(** The calls into [trimesh.transformations].  trimesh is a library, not part
    of this repository: the functions are written from their published
    definitions.  Its matrices are 4x4 homogeneous; no [point] is given here,
    so the fourth row and column are those of the identity and only the 3x3
    block is kept. *)
Module transformations.

(** [unit_vector]: [data / sqrt(dot(data, data))] *)
Definition unit_vector (d : vec3) : vec3 := vdiv d (sqrt (dot d d)).

Definition diag (a : R) : mat3 := M3 (V3 a 0 0) (V3 0 a 0) (V3 0 0 a).

(** [numpy.outer(a, b) * k] *)
Definition outer_scaled (a b : vec3) (k : R) : mat3 :=
  M3 (vscale (vscale b (vx a)) k)
     (vscale (vscale b (vy a)) k)
     (vscale (vscale b (vz a)) k).

(** The matrix added last: the cross-product matrix of [d]. *)
Definition skew (d : vec3) : mat3 :=
  M3 (V3 0 (- vz d) (vy d))
     (V3 (vz d) 0 (- vx d))
     (V3 (- vy d) (vx d) 0).

(** [rotation_matrix(angle, direction)] *)
Definition rotation_matrix (angle : R) (direction : vec3) : mat3 :=
  let sina := sin angle in
  let cosa := cos angle in
  let direction := unit_vector direction in
  let M := diag cosa in
  let M := mat_add M (outer_scaled direction direction (1 - cosa)) in
  let direction := vscale direction sina in
  mat_add M (skew direction).

Definition identity : mat3 := diag 1.

(** [concatenate_matrices]: [M = identity; for i in matrices:
    M = dot(M, i)] *)
Definition concatenate_matrices (matrices : list mat3) : mat3 :=
  fold_left mat_mul matrices identity.

End transformations.

(** [Trimesh.apply_transform(matrix)]: every vertex [v] becomes
    [matrix . v] (column vectors); a rotation keeps the faces as they are. *)
Definition apply_transform (matrix : mat3) (mesh : Trimesh) : Trimesh :=
  set_vertices (mat_vec matrix) mesh.

Definition transform_meshes (tilt_forward tilt_left : R) (self : IconGenerator)
  : IconGenerator :=
  let forward_rad := radians tilt_forward in
  let left_rad := radians tilt_left in
  let rx := transformations.rotation_matrix forward_rad (V3 1 0 0) in
  let ry := transformations.rotation_matrix left_rad (V3 0 1 0) in
  let transform := transformations.concatenate_matrices [rx; ry] in
  {| icon_size := icon_size self;
     meshes := map (fun e => (apply_transform transform (fst e), snd e))
                   (meshes self) |}.

(** The two rotations as the specification names them: about the X axis and
    about the Y axis, by an angle in radians, acting on a vertex. *)
Definition rot_x (t : R) (v : vec3) : vec3 :=
  V3 (vx v) (cos t * vy v - sin t * vz v) (sin t * vy v + cos t * vz v).

Definition rot_y (t : R) (v : vec3) : vec3 :=
  V3 (cos t * vx v + sin t * vz v) (vy v) (- sin t * vx v + cos t * vz v).

(** A scene with one mesh that has the one vertex (1, 0, 0). *)
Definition one_vertex_scene : IconGenerator :=
  {| icon_size := 1024;
     meshes := [({| vertices := [V3 1 0 0]; faces := [] |}, 1%Z)] |}.

(** ** Normalizer: [compute_bounds] and [normalize_meshes] *)

(** [np.min] and [np.max] of a one-dimensional array; numpy raises
    [ValueError] on an empty one. *)
Definition np_min (l : list R) : result R :=
  match l with
  | [] => Raise ValueError
  | a :: t => Ok (fold_left Rmin t a)
  end.

Definition np_max (l : list R) : result R :=
  match l with
  | [] => Raise ValueError
  | a :: t => Ok (fold_left Rmax t a)
  end.

(** [np.min(a, axis=0)] and [np.max(a, axis=0)] of an array of shape (n,3). *)
Definition np_min_axis0 (a : list vec3) : result vec3 :=
  x <- np_min (map vx a) ;; y <- np_min (map vy a) ;; z <- np_min (map vz a) ;;
  Ok (V3 x y z).

Definition np_max_axis0 (a : list vec3) : result vec3 :=
  x <- np_max (map vx a) ;; y <- np_max (map vy a) ;; z <- np_max (map vz a) ;;
  Ok (V3 x y z).

(** [np.vstack([mesh.vertices for mesh, _ in self.meshes])] *)
Definition all_vertices (ms : list (Trimesh * Z)) : list vec3 :=
  concat (map (fun e => vertices (fst e)) ms).

Definition compute_bounds (self : IconGenerator) : result (vec3 * vec3) :=
  match meshes self with
  | [] => Ok (V3 0 0 0, V3 1 1 1)
  | _ :: _ =>
      let all_vertices := all_vertices (meshes self) in
      bounds_min <- np_min_axis0 all_vertices ;;
      bounds_max <- np_max_axis0 all_vertices ;;
      Ok (bounds_min, bounds_max)
  end.

(** The division [a / b] of a Python float by a numpy float.  By zero numpy
    warns and gives inf or nan: no finite number. *)
Definition np_true_divide (a b : R) : result R :=
  if Req_dec_T b 0 then NonFinite else Ok (a / b).

(** [center], [max_size] and [scale] of [normalize_meshes], from the bounds. *)
Definition bounds_center (bounds_min bounds_max : vec3) : vec3 :=
  vdiv (vadd bounds_min bounds_max) 2.

Definition bounds_max_size (bounds_min bounds_max : vec3) : R :=
  let size := vsub bounds_max bounds_min in
  Rmax (vx size) (vy size).

(** What the three in-place updates of the loop body do to one vertex. *)
Definition normalize_vertex (icon_size : Z) (center : vec3) (scale : R)
    (v : vec3) : vec3 :=
  let v := vsub v center in
  let v := vscale v scale in
  V3 (vx v + IZR icon_size / 2) (vy v + IZR icon_size / 2) (vz v).

Definition normalize_meshes (self : IconGenerator) : result IconGenerator :=
  b <- compute_bounds self ;;
  let bounds_min := fst b in
  let bounds_max := snd b in
  let center := bounds_center bounds_min bounds_max in
  let max_size := bounds_max_size bounds_min bounds_max in
  scale <- np_true_divide (IZR (icon_size self) * 0.8) max_size ;;
  Ok (map_meshes (normalize_vertex (icon_size self) center scale) self).

(** A scene with one mesh of two vertices, (0,0,0) and (1,1,0), and no face. *)
Definition two_point_scene (size : Z) : IconGenerator :=
  {| icon_size := size;
     meshes := [({| vertices := [V3 0 0 0; V3 1 1 0]; faces := [] |}, 1%Z)] |}.

(** ** ShadingModel: [compute_lighting] and the colour of a face *)

(** Python's [max(0, x)] *)
Definition max0 (x : R) : R := if Rlt_dec 0 x then x else 0.

Definition compute_lighting (normal light_dir : vec3) : R :=
  let normal := vdiv normal (norm normal + 1e-10) in
  let light_dir := vdiv light_dir (norm light_dir + 1e-10) in
  let intensity := dot normal light_dir in
  max0 intensity * 0.7 + 0.3.

(** [int(x)] and [.astype(int)]: the fractional part is dropped, towards
    zero. *)
Definition trunc (x : R) : Z := if Rle_dec 0 x then Zfloor x else Zceil x.

(** [np.clip(c, 0, 255)] on an integer *)
Definition clip (c : Z) : Z := Z.min (Z.max c 0) 255.

Definition RGB : Type := (Z * Z * Z)%type.

(** Lines 178-187: the fill colour of a face of layer [layer_num] lit with
    [intensity]. *)
Definition face_color (layer_num : Z) (intensity : R) : RGB :=
  let layer_ratio := IZR layer_num / 11.0 in
  let base_r := trunc (255 * (0.2 + 0.8 * layer_ratio)) in
  let base_g := trunc (255 * (0.4 + 0.6 * layer_ratio)) in
  let base_b := trunc (255 * (0.6 + 0.4 * layer_ratio)) in
  let color c := clip (trunc (IZR c * intensity)) in
  (color base_r, color base_g, color base_b).




(** ** ProjectionRenderer: [generate_svg] *)

(** [np.mean].  Of an empty array numpy gives nan; the statements below that
    depend on a mean assume the array has an element. *)
Definition np_mean (l : list R) : R := fold_right Rplus 0 l / INR (length l).

(** The sort key, [lambda x: np.mean(x[0].vertices[:, 2])] *)
Definition mean_z (x : Trimesh * Z) : R := np_mean (map vz (vertices (fst x))).

(** [sorted(l, key=key)] with real keys.  Python's sort is stable and compares
    keys with [<] only: among the orderings of [l] it returns the one that is
    ascending in the key and keeps elements of equal key in the order of [l].
    Insertion from the right gives that list. *)
Section Sorted.
Context {A : Type} (key : A -> R).

Fixpoint insert_sorted (x : A) (l : list A) : list A :=
  match l with
  | [] => [x]
  | y :: t =>
      if Rlt_dec (key y) (key x) then y :: insert_sorted x t else x :: y :: t
  end.

Definition sorted (l : list A) : list A := fold_right insert_sorted [] l.
End Sorted.

(** [enumerate] *)
Definition enumerate {A : Type} (l : list A) : list (nat * A) :=
  combine (seq 0 (length l)) l.

(** The polygon handed to [dwg.polygon]: its points and its fill, the three
    channels of ['rgb(r,g,b)']. *)
Record Polygon2D : Type := { points : list (R * R); fill : RGB }.

(** What [dwg.add] receives: the background rectangle of the given side, with
    no fill, and the polygons. *)
Inductive SvgElement : Type :=
| Rect (size : Z)
| Polygon (p : Polygon2D).

(** [a[i]], with Python's [IndexError] *)
Definition getitem (a : list vec3) (i : nat) : result vec3 :=
  match nth_error a i with
  | Some v => Ok v
  | None => Raise IndexError
  end.

(** [mesh.vertices[face]] *)
Definition face_vertices (mesh : Trimesh) (face : Face)
  : result (vec3 * vec3 * vec3) :=
  let '(i0, i1, i2) := face in
  v0 <- getitem (vertices mesh) i0 ;;
  v1 <- getitem (vertices mesh) i1 ;;
  v2 <- getitem (vertices mesh) i2 ;;
  Ok (v0, v1, v2).

Definition face_normal (vertices_3d : vec3 * vec3 * vec3) : vec3 :=
  let '(v0, v1, v2) := vertices_3d in
  let edge1 := vsub v1 v0 in
  let edge2 := vsub v2 v0 in
  cross edge1 edge2.

(** [light_dir = np.array([1.0, 0.0, 0.3])] *)
Definition light_dir : vec3 := V3 1.0 0.0 0.3.

(** Orthographic projection with the Y axis flipped. *)
Definition project (icon_size : Z) (v : vec3) : R * R :=
  (vx v, IZR icon_size - vy v).

(** The body of the loop over the faces: [None] is the [continue] of a
    back face. *)
Definition face_polygon (icon_size : Z) (mesh : Trimesh) (layer_num : Z)
    (face : Face) : result (option Polygon2D) :=
  vertices_3d <- face_vertices mesh face ;;
  let normal := face_normal vertices_3d in
  if Rlt_dec (vz normal) 0 then Ok None
  else
    let intensity := compute_lighting normal light_dir in
    let '(v0, v1, v2) := vertices_3d in
    let vertices_2d := [project icon_size v0; project icon_size v1;
                        project icon_size v2] in
    Ok (Some {| points := vertices_2d;
                fill := face_color layer_num intensity |}).

Definition kept {A B : Type} (l : list (A * option B)) : list (A * B) :=
  flat_map (fun r => match snd r with Some p => [(fst r, p)] | None => [] end) l.

(** [for face_idx, face in enumerate(mesh.faces)]: the polygons one mesh adds,
    each with its [face_idx]. *)
Definition mesh_polygons (icon_size : Z) (mesh : Trimesh) (layer_num : Z)
  : result (list (nat * Polygon2D)) :=
  rs <- for_each (fun f => p <- face_polygon icon_size mesh layer_num (snd f) ;;
                           Ok (fst f, p))
                 (enumerate (faces mesh)) ;;
  Ok (kept rs).

(** The drawing, as the list of elements added to it. *)
Definition generate_svg (self : IconGenerator) : result (list SvgElement) :=
  let dwg := [Rect (icon_size self)] in
  let sorted_meshes := sorted mean_z (meshes self) in
  added <- for_each (fun e => mesh_polygons (icon_size self) (fst e) (snd e))
                    sorted_meshes ;;
  Ok (dwg ++ map (fun p => Polygon (snd p)) (concat added)).

(** The same run with the origin of every polygon written next to it: the
    position of its mesh in [self.meshes] and its [face_idx]. *)
Definition emitted (self : IconGenerator) : result (list (nat * nat * Polygon2D)) :=
  let sorted_meshes :=
    sorted (fun e => mean_z (snd e)) (enumerate (meshes self)) in
  added <- for_each
             (fun e =>
                ps <- mesh_polygons (icon_size self) (fst (snd e)) (snd (snd e)) ;;
                Ok (map (fun p => (fst e, fst p, snd p)) ps))
             sorted_meshes ;;
  Ok (concat added).

(** The elements of a drawing that goes with a run of [emitted]. *)
Definition drawing_of (size : Z) (t : list (nat * nat * Polygon2D))
  : list SvgElement :=
  Rect size :: map (fun e => Polygon (snd e)) t.

(** ** Well-formed scenes *)

Definition valid_face (mesh : Trimesh) (face : Face) : Prop :=
  let '(i0, i1, i2) := face in
  (i0 < length (vertices mesh))%nat /\ (i1 < length (vertices mesh))%nat /\
  (i2 < length (vertices mesh))%nat.

(** Every face names vertices of its own mesh. *)
Definition valid_faces (self : IconGenerator) : Prop :=
  Forall (fun e => Forall (valid_face (fst e)) (faces (fst e))) (meshes self).

(** The order [sorted] puts entries in when each carries its position in the
    input: ascending key, and ascending position among equal keys. *)
Definition before {A : Type} (key : A -> R) (a b : nat * A) : Prop :=
  key (snd a) < key (snd b) \/
  (key (snd a) = key (snd b) /\ (fst a < fst b)%nat).

(** The order of the polygons of a run of [emitted]: by mesh first, in the
    order [sorted] gives the meshes, then by [face_idx]. *)
Definition emitted_before (self : IconGenerator)
    (e1 e2 : nat * nat * Polygon2D) : Prop :=
  (exists a b, nth_error (meshes self) (fst (fst e1)) = Some a /\
               nth_error (meshes self) (fst (fst e2)) = Some b /\
               before mean_z (fst (fst e1), a) (fst (fst e2), b)) \/
  (fst (fst e1) = fst (fst e2) /\ (snd (fst e1) < snd (fst e2))%nat).

(** A face the renderer drops: its vertices exist and its normal has a
    negative Z. *)
Definition back_face (mesh : Trimesh) (face : Face) : Prop :=
  exists vs, face_vertices mesh face = Ok vs /\ vz (face_normal vs) < 0.

Definition no_front_face (self : IconGenerator) : Prop :=
  Forall (fun e => Forall (back_face (fst e)) (faces (fst e))) (meshes self).




(** Every mesh has a vertex, so that every sort key is a number. *)
Definition has_vertices (self : IconGenerator) : Prop :=
  Forall (fun e => vertices (fst e) <> []) (meshes self).

(** ** Scenes to run the renderer on *)

(** One triangle at height [z], counter-clockwise seen from +Z: a front
    face. *)
Definition triangle (z : R) : Trimesh :=
  {| vertices := [V3 0 0 z; V3 1 0 z; V3 0 1 z]; faces := [(0, 1, 2)%nat] |}.

(** The same triangle wound the other way: a back face. *)
Definition back_triangle (z : R) : Trimesh :=
  {| vertices := [V3 0 0 z; V3 1 0 z; V3 0 1 z]; faces := [(0, 2, 1)%nat] |}.

(** Layer 11 at Z = 10 added first, layer 1 at Z = -10 added second. *)
Definition two_layer_scene : IconGenerator :=
  {| icon_size := 100;
     meshes := [(triangle 10, 11%Z); (triangle (-10), 1%Z)] |}.

(** Two meshes at the same height, with layer numbers [l0] and [l1]. *)
Definition tie_scene (l0 l1 : Z) : IconGenerator :=
  {| icon_size := 100; meshes := [(triangle 0, l0); (triangle 0, l1)] |}.

(** A scene whose only face is a back face. *)
Definition hidden_scene : IconGenerator :=
  {| icon_size := 100; meshes := [(back_triangle 0, 1%Z)] |}.

(** ** The rest of the class: the count [generate_svg] prints, the loader and
    the command line *)

(** Line 198: the number in the closing message of [generate_svg],
    [sum(len(m[0].faces) for m in self.meshes)]. *)
Definition reported_faces (self : IconGenerator) : nat :=
  fold_right Nat.add 0%nat (map (fun m => length (faces (fst m))) (meshes self)).

(** [f"{n:02d}"]: the decimal digits, with a minus sign for a negative number,
    padded with a zero on the left up to two characters. *)
Definition format_02d (n : Z) : string :=
  let digits := NilZero.string_of_int (Z.to_int n) in
  if (String.length digits <? 2)%nat then ("0" ++ digits)%string else digits.

(** The three file name patterns tried for a layer, in this order. *)
Definition patterns (layer_num : Z) : list string :=
  [("layer_" ++ format_02d layer_num ++ "*.stl")%string;
   ("*layer_" ++ format_02d layer_num ++ "*.stl")%string;
   ("*-" ++ format_02d layer_num ++ ".stl")%string].

(** The lines [load_stl_layers] prints. *)
Inductive LogLine : Type :=
| LoadingFrom                             (* Loading STL layers from ... *)
| LoadingLayer (layer_num : Z) (path : string)
| FailedToLoad (path : string)            (* Warning: Failed to load ... *)
| NoFileFound (layer_num : Z)             (* Warning: No STL file found ... *)
| LoadedLayers (count : nat).             (* Loaded ... layers *)

(** The file system and the STL reader are outside the script.  [glob] is
    [list(stl_dir.glob(pattern))], the matching paths in the order the
    directory gives them; [load] is [trimesh.load], with [None] when it
    raises. *)
Section Loader.
Variable glob : string -> list string.
Variable load : string -> option Trimesh.

(** [for pattern in patterns]: the first file of a pattern is the only one
    tried; a failed load goes on to the next pattern, a successful one
    breaks. *)
Fixpoint try_patterns (layer_num : Z) (ps : list string)
  : list LogLine * option Trimesh :=
  match ps with
  | [] => ([], None)
  | pattern :: rest =>
      match glob pattern with
      | [] => try_patterns layer_num rest
      | stl_path :: _ =>
          match load stl_path with
          | Some mesh => ([LoadingLayer layer_num stl_path], Some mesh)
          | None =>
              let r := try_patterns layer_num rest in
              (LoadingLayer layer_num stl_path :: FailedToLoad stl_path :: fst r,
               snd r)
          end
      end
  end.

(** The body of [for layer_num in layer_numbers], on the log and
    [self.meshes]. *)
Definition load_layer (st : list LogLine * list (Trimesh * Z)) (layer_num : Z)
  : list LogLine * list (Trimesh * Z) :=
  let r := try_patterns layer_num (patterns layer_num) in
  match snd r with
  | Some mesh => (fst st ++ fst r, snd st ++ [(mesh, layer_num)])
  | None => (fst st ++ fst r ++ [NoFileFound layer_num], snd st)
  end.

(** [load_stl_layers]: what is printed, the generator afterwards and the
    value returned, [len(self.meshes) > 0]. *)
Definition load_stl_layers (layer_numbers : list Z) (self : IconGenerator)
  : list LogLine * IconGenerator * bool :=
  let st := fold_left load_layer layer_numbers ([LoadingFrom], meshes self) in
  (fst st ++ [LoadedLayers (length (snd st))],
   {| icon_size := icon_size self; meshes := snd st |},
   negb (length (snd st) =? 0)%nat).

(** Whether a requested layer ends up in the scene. *)
Definition loadable (layer_num : Z) : bool :=
  match snd (try_patterns layer_num (patterns layer_num)) with
  | Some _ => true
  | None => false
  end.

(** [main], up to the first thing [generate_all_formats] does, the master
    SVG: [inl 1] is [return 1]; [inr] is the outcome of the render of the
    loaded scene, tilted and then normalized. *)
Definition main (stl_dir_exists : bool) (layers : list Z) (size : Z)
    (tilt_forward tilt_left : R) : Z + result (list SvgElement) :=
  if negb stl_dir_exists then inl 1%Z
  else
    let generator := {| icon_size := size; meshes := [] |} in
    let '(_, generator, loaded) := load_stl_layers layers generator in
    if negb loaded then inl 1%Z
    else
      let generator := transform_meshes tilt_forward tilt_left generator in
      inr (generator <- normalize_meshes generator ;; generate_svg generator).
End Loader.

(** One channel of [face_color]: [k + (1 - k) * layer_ratio] is the share of
    255 at the base. *)
Definition channel (k : R) (layer_num : Z) (intensity : R) : Z :=
  clip (trunc (IZR (trunc (255 * (k + (1 - k) * (IZR layer_num / 11.0))))
               * intensity)).

(** The test of line 166 on a face, as a boolean: the face has its three
    vertices and [normal[2] < 0]. *)
Definition is_back_face (mesh : Trimesh) (face : Face) : bool :=
  match face_vertices mesh face with
  | Ok vertices_3d =>
      if Rlt_dec (vz (face_normal vertices_3d)) 0 then true else false
  | _ => false
  end.

(** The number of faces of the scene that the test drops. *)
Definition culled_faces (self : IconGenerator) : nat :=
  fold_right Nat.add 0%nat
    (map (fun m => length (filter (is_back_face (fst m)) (faces (fst m))))
         (meshes self)).

(** A directory with the one file [layer_01.stl], which holds a triangle. *)
Definition one_file_glob (pattern : string) : list string :=
  if String.eqb pattern "layer_01*.stl" then ["layer_01.stl"%string]
  else if String.eqb pattern "*layer_01*.stl" then ["layer_01.stl"%string]
  else [].

Definition one_file_load (path : string) : option Trimesh := Some (triangle 0).



(** * Facts about the loops *)

Lemma bind_Ok {A B : Type} (c : result A) (k : A -> result B) (b : B) :
  bind c k = Ok b -> exists a, c = Ok a /\ k a = Ok b.
Proof. destruct c; simpl; intros H; try discriminate. eauto. Qed.

Lemma for_each_Forall2 {A B : Type} (f : A -> result B) (l : list A) :
  forall bs, for_each f l = Ok bs -> Forall2 (fun a b => f a = Ok b) l bs.
Proof.
  induction l as [|a t IH]; simpl; intros bs H.
  - injection H as <-. constructor.
  - apply bind_Ok in H as (b & Hb & H).
    apply bind_Ok in H as (bs' & Hbs & H).
    injection H as <-. constructor; auto.
Qed.

Lemma for_each_total {A B : Type} (f : A -> result B) (l : list A) :
  Forall (fun a => exists b, f a = Ok b) l -> exists bs, for_each f l = Ok bs.
Proof.
  induction 1 as [|a t [b Hb] _ [bs Hbs]]; simpl.
  - eauto.
  - rewrite Hb, Hbs. simpl. eauto.
Qed.

Lemma for_each_map {A B C : Type} (g : A -> B) (f : B -> result C) (l : list A) :
  for_each f (map g l) = for_each (fun a => f (g a)) l.
Proof.
  induction l as [|a t IH]; simpl; [reflexivity|]. now rewrite IH.
Qed.

(** ** [enumerate] *)

Lemma combine_seq_nth {A : Type} (l : list A) :
  forall s i a, In (i, a) (combine (seq s (length l)) l) ->
                (s <= i)%nat /\ nth_error l (i - s) = Some a.
Proof.
  induction l as [|x t IH]; simpl; intros s i a H; [contradiction|].
  destruct H as [H|H].
  - injection H as <- <-. rewrite Nat.sub_diag. split; [lia|reflexivity].
  - apply IH in H as [Hle Hn]. split; [lia|].
    replace (i - s)%nat with (S (i - S s)) by lia. exact Hn.
Qed.

Lemma enumerate_In {A : Type} (l : list A) (i : nat) (a : A) :
  In (i, a) (enumerate l) -> nth_error l i = Some a.
Proof.
  intros H. apply combine_seq_nth in H as [_ H].
  now rewrite Nat.sub_0_r in H.
Qed.

Lemma combine_seq_sorted {A : Type} (l : list A) :
  forall s, StronglySorted (fun a b : nat * A => (fst a < fst b)%nat)
                           (combine (seq s (length l)) l).
Proof.
  induction l as [|x t IH]; simpl; intros s; constructor; [apply IH|].
  apply Forall_forall. intros [i a] H.
  apply combine_seq_nth in H as [H _]. simpl. lia.
Qed.

Lemma enumerate_sorted {A : Type} (l : list A) :
  StronglySorted (fun a b : nat * A => (fst a < fst b)%nat) (enumerate l).
Proof. apply combine_seq_sorted. Qed.

Lemma map_snd_combine_seq {A : Type} (l : list A) :
  forall s, map snd (combine (seq s (length l)) l) = l.
Proof.
  induction l as [|x t IH]; simpl; intros s; [reflexivity|]. now rewrite IH.
Qed.

Lemma map_snd_enumerate {A : Type} (l : list A) : map snd (enumerate l) = l.
Proof. apply map_snd_combine_seq. Qed.

(** ** [sorted] *)

Section SortedFacts.
Context {A : Type} (key : A -> R).

Lemma insert_sorted_perm (x : A) (l : list A) :
  Permutation (insert_sorted key x l) (x :: l).
Proof.
  induction l as [|y t IH]; simpl; [reflexivity|].
  destruct (Rlt_dec (key y) (key x)); [|reflexivity].
  rewrite IH. apply perm_swap.
Qed.

Lemma sorted_perm (l : list A) : Permutation (sorted key l) l.
Proof.
  induction l as [|x t IH]; simpl; [reflexivity|].
  rewrite insert_sorted_perm. now constructor.
Qed.

Lemma sorted_In (l : list A) (a : A) : In a (sorted key l) <-> In a l.
Proof.
  split; apply Permutation_in; [|symmetry]; apply sorted_perm.
Qed.

End SortedFacts.

Section SortedOrder.
Context {A : Type} (key : A -> R).




Lemma insert_sorted_map {B : Type} (f : B -> A) (x : B) (l : list B) :
  map f (insert_sorted (fun b => key (f b)) x l) =
  insert_sorted key (f x) (map f l).
Proof.
  induction l as [|y t IH]; simpl; [reflexivity|].
  destruct (Rlt_dec (key (f y)) (key (f x))); simpl; [now rewrite IH|reflexivity].
Qed.

Lemma sorted_map {B : Type} (f : B -> A) (l : list B) :
  map f (sorted (fun b => key (f b)) l) = sorted key (map f l).
Proof.
  induction l as [|x t IH]; simpl; [reflexivity|].
  now rewrite insert_sorted_map, IH.
Qed.
End SortedOrder.


Lemma StronglySorted_app {A : Type} (R : A -> A -> Prop) (l1 l2 : list A) :
  StronglySorted R l1 -> StronglySorted R l2 ->
  (forall x y, In x l1 -> In y l2 -> R x y) ->
  StronglySorted R (l1 ++ l2).
Proof.
  induction 1 as [|x t Ht IH Hx]; simpl; intros H2 Hc; [exact H2|].
  constructor.
  - apply IH; auto.
  - apply Forall_app. split; [exact Hx|].
    apply Forall_forall. intros y Hy. apply Hc; auto.
Qed.



(** ** One mesh *)

Lemma getitem_valid (a : list vec3) (i : nat) :
  (i < length a)%nat -> exists v, getitem a i = Ok v.
Proof.
  intros H. unfold getitem.
  destruct (nth_error a i) eqn:E; [eauto|].
  apply nth_error_None in E. lia.
Qed.

Lemma face_vertices_valid (mesh : Trimesh) (face : Face) :
  valid_face mesh face -> exists vs, face_vertices mesh face = Ok vs.
Proof.
  destruct face as [[i0 i1] i2]. intros (H0 & H1 & H2).
  destruct (getitem_valid _ _ H0) as [v0 E0].
  destruct (getitem_valid _ _ H1) as [v1 E1].
  destruct (getitem_valid _ _ H2) as [v2 E2].
  unfold face_vertices. rewrite E0, E1, E2. simpl. eauto.
Qed.

Lemma face_polygon_valid (sz : Z) (mesh : Trimesh) (layer : Z) (face : Face) :
  valid_face mesh face -> exists o, face_polygon sz mesh layer face = Ok o.
Proof.
  intros H. destruct (face_vertices_valid _ _ H) as [[[v0 v1] v2] E].
  unfold face_polygon. rewrite E. simpl.
  destruct (Rlt_dec _ 0); eauto.
Qed.

(** A face whose normal points away from the viewer adds nothing. *)
Lemma face_polygon_culled (sz : Z) (mesh : Trimesh) (layer : Z) (face : Face)
    (vs : vec3 * vec3 * vec3) :
  face_vertices mesh face = Ok vs -> vz (face_normal vs) < 0 ->
  face_polygon sz mesh layer face = Ok None.
Proof.
  intros E H. unfold face_polygon. rewrite E. simpl.
  destruct (Rlt_dec _ 0); [reflexivity|contradiction].
Qed.

Section MeshLoop.
Variables (sz : Z) (mesh : Trimesh) (layer : Z).

Let body (f : nat * Face) : result (nat * option Polygon2D) :=
  p <- face_polygon sz mesh layer (snd f) ;; Ok (fst f, p).

Lemma kept_of_loop (l : list (nat * Face)) (rs : list (nat * option Polygon2D)) :
  Forall2 (fun f r => body f = Ok r) l rs ->
  StronglySorted (fun a b => (fst a < fst b)%nat) l ->
  StronglySorted (fun a b : nat * Polygon2D => (fst a < fst b)%nat) (kept rs) /\
  (forall i p, In (i, p) (kept rs) <->
               exists face, In (i, face) l /\
                            face_polygon sz mesh layer face = Ok (Some p)).
Proof.
  induction 1 as [|[i face] r l' rs' Hr H2 IH]; intros Hs.
  - split; [constructor|]. intros i p. simpl. split; [tauto|].
    intros (f & [] & _).
  - inversion Hs as [|? ? Hs' Hi]; subst.
    destruct (IH Hs') as [IHs IHin]. clear IH.
    unfold body in Hr. simpl in Hr.
    apply bind_Ok in Hr as (o & Ho & Hr). injection Hr as <-.
    assert (Hmem : forall j p, In (j, p) (kept ((i, o) :: rs')) <->
              (exists f, In (j, f) ((i, face) :: l') /\
                         face_polygon sz mesh layer f = Ok (Some p))).
    { intros j p. unfold kept. simpl. rewrite in_app_iff.
      fold (kept rs'). rewrite IHin. split.
      - intros [H|(f & Hf & Hp)].
        + destruct o as [q|]; [|contradiction].
          destruct H as [H|[]]. injection H as <- <-.
          exists face. split; [now left|assumption].
        + exists f. split; [now right|assumption].
      - intros (f & [Hf|Hf] & Hp).
        + injection Hf as <- <-. rewrite Hp in Ho. injection Ho as <-.
          left. now left.
        + right. eauto. }
    split; [|exact Hmem].
    unfold kept. simpl. fold (kept rs').
    apply StronglySorted_app; auto.
    + destruct o; repeat constructor.
    + intros x y Hx Hy. destruct o as [q|]; [|contradiction].
      destruct Hx as [<-|[]]. destruct y as [j p].
      apply IHin in Hy as (f & Hf & _).
      rewrite Forall_forall in Hi. apply (Hi (j, f) Hf).
Qed.

Lemma mesh_polygons_spec (ps : list (nat * Polygon2D)) :
  mesh_polygons sz mesh layer = Ok ps ->
  StronglySorted (fun a b : nat * Polygon2D => (fst a < fst b)%nat) ps /\
  (forall i p, In (i, p) ps <->
               exists face, nth_error (faces mesh) i = Some face /\
                            face_polygon sz mesh layer face = Ok (Some p)).
Proof.
  unfold mesh_polygons. intros H.
  apply bind_Ok in H as (rs & Hrs & H). injection H as <-.
  apply for_each_Forall2 in Hrs.
  destruct (kept_of_loop _ _ Hrs (enumerate_sorted _)) as [Hs Hin].
  split; [exact Hs|]. intros i p. rewrite Hin. split.
  - intros (f & Hf & Hp). exists f. split; [|exact Hp].
    now apply enumerate_In.
  - intros (f & Hf & Hp). exists f. split; [|exact Hp].
    clear - Hf. unfold enumerate.
    assert (G : forall s, In ((s + i)%nat, f)
                             (combine (seq s (length (faces mesh))) (faces mesh))).
    { revert i Hf. induction (faces mesh) as [|x t IH]; intros i Hf s.
      - destruct i; discriminate.
      - destruct i as [|i]; simpl in *.
        + injection Hf as ->. left. f_equal. lia.
        + right. replace (s + S i)%nat with (S s + i)%nat by lia. auto. }
    apply (G 0%nat).
Qed.

Lemma mesh_polygons_total :
  Forall (valid_face mesh) (faces mesh) ->
  exists ps, mesh_polygons sz mesh layer = Ok ps.
Proof.
  intros H. unfold mesh_polygons.
  destruct (for_each_total
              (fun f => p <- face_polygon sz mesh layer (snd f) ;; Ok (fst f, p))
              (enumerate (faces mesh))) as [rs Hrs].
  - apply Forall_forall. intros [i f] Hf.
    apply enumerate_In, nth_error_In in Hf.
    rewrite Forall_forall in H.
    destruct (face_polygon_valid sz mesh layer f (H f Hf)) as [o Ho].
    simpl. rewrite Ho. simpl. eauto.
  - rewrite Hrs. simpl. eauto.
Qed.
End MeshLoop.

Lemma Forall2_In_l {A B : Type} (P : A -> B -> Prop) (l : list A) (bs : list B) :
  Forall2 P l bs -> forall a, In a l -> exists b, In b bs /\ P a b.
Proof.
  induction 1 as [|x y l' bs' Hxy _ IH]; intros a Ha; [contradiction|].
  destruct Ha as [<-|Ha].
  - exists y. split; [now left|assumption].
  - destruct (IH a Ha) as (b & Hb & Hab). exists b. split; [now right|assumption].
Qed.

Lemma Forall2_In_r {A B : Type} (P : A -> B -> Prop) (l : list A) (bs : list B) :
  Forall2 P l bs -> forall b, In b bs -> exists a, In a l /\ P a b.
Proof.
  induction 1 as [|x y l' bs' Hxy _ IH]; intros b Hb; [contradiction|].
  destruct Hb as [<-|Hb].
  - exists x. split; [now left|assumption].
  - destruct (IH b Hb) as (a & Ha & Hab). exists a. split; [now right|assumption].
Qed.

(** ** The whole scene *)

Section SceneLoop.
Variable self : IconGenerator.

Let order : list (nat * (Trimesh * Z)) :=
  sorted (fun e => mean_z (snd e)) (enumerate (meshes self)).

Let block (e : nat * (Trimesh * Z)) : result (list (nat * nat * Polygon2D)) :=
  ps <- mesh_polygons (icon_size self) (fst (snd e)) (snd (snd e)) ;;
  Ok (map (fun p => (fst e, fst p, snd p)) ps).

Lemma order_In (i : nat) (e : Trimesh * Z) :
  In (i, e) order <-> nth_error (meshes self) i = Some e.
Proof.
  unfold order. rewrite sorted_In. split; [apply enumerate_In|].
  intros H. unfold enumerate.
  assert (G : forall s, In ((s + i)%nat, e)
                           (combine (seq s (length (meshes self))) (meshes self))).
  { revert i H. induction (meshes self) as [|x t IH]; intros i H s.
    - destruct i; discriminate.
    - destruct i as [|i]; simpl in *.
      + injection H as ->. left. f_equal. lia.
      + right. replace (s + S i)%nat with (S s + i)%nat by lia. auto. }
  apply (G 0%nat).
Qed.


Lemma block_spec (e : nat * (Trimesh * Z)) (blk : list (nat * nat * Polygon2D)) :
  block e = Ok blk ->
  StronglySorted (emitted_before self) blk /\
  (forall i fi p, In (i, fi, p) blk <->
     i = fst e /\
     exists face, nth_error (faces (fst (snd e))) fi = Some face /\
       face_polygon (icon_size self) (fst (snd e)) (snd (snd e)) face
       = Ok (Some p)).
Proof.
  unfold block. intros H. apply bind_Ok in H as (ps & Hps & H).
  injection H as <-.
  apply mesh_polygons_spec in Hps as [Hs Hin].
  split.
  - clear Hin. induction Hs as [|x t Ht IH Hx]; simpl; constructor; auto.
    rewrite Forall_forall in *. intros y Hy.
    apply in_map_iff in Hy as (z & <- & Hz).
    right. simpl. split; [reflexivity|]. auto.
  - intros i fi p. rewrite <- Hin. rewrite in_map_iff. split.
    + intros ([fi' p'] & Heq & Hz). simpl in Heq.
      injection Heq as <- <- <-. auto.
    + intros [-> Hz]. exists (fi, p). auto.
Qed.

Lemma emitted_unfold : emitted self = (added <- for_each block order ;; Ok (concat added)).
Proof. reflexivity. Qed.

(** The run is the list of the polygons of the front faces. *)
Lemma emitted_In (t : list (nat * nat * Polygon2D)) :
  emitted self = Ok t ->
  forall i fi p,
    In (i, fi, p) t <->
    exists e face,
      nth_error (meshes self) i = Some e /\
      nth_error (faces (fst e)) fi = Some face /\
      face_polygon (icon_size self) (fst e) (snd e) face = Ok (Some p).
Proof.
  rewrite emitted_unfold. intros H.
  apply bind_Ok in H as (added & Hadd & H). injection H as <-.
  apply for_each_Forall2 in Hadd.
  intros i fi p. rewrite in_concat. split.
  - intros (blk & Hblk & Hin).
    destruct (Forall2_In_r _ _ _ Hadd _ Hblk) as ([j e] & He & Hb).
    apply block_spec in Hb as [_ Hb].
    destruct (proj1 (Hb _ _ _) Hin) as [Hi (face & Hf & Hp)].
    simpl in Hi. subst i. apply order_In in He. simpl in *. eauto.
  - intros (e & face & He & Hf & Hp).
    apply order_In in He.
    destruct (Forall2_In_l _ _ _ Hadd _ He) as (blk & Hblk & Hb).
    exists blk. split; [exact Hblk|].
    apply block_spec in Hb as [_ Hb]. apply Hb. simpl. eauto.
Qed.


(** With faces that name vertices of their mesh the run returns. *)
Lemma emitted_total :
  valid_faces self -> exists t, emitted self = Ok t.
Proof.
  intros Hv. rewrite emitted_unfold.
  destruct (for_each_total block order) as [added Hadd].
  - apply Forall_forall. intros [i e] He. apply order_In in He.
    apply nth_error_In in He. unfold valid_faces in Hv.
    rewrite Forall_forall in Hv.
    destruct (mesh_polygons_total (icon_size self) (fst e) (snd e) (Hv e He))
      as [ps Hps].
    unfold block. simpl. rewrite Hps. simpl. eauto.
  - rewrite Hadd. simpl. eauto.
Qed.

(** [generate_svg] adds the polygons of the run, in its order, after the
    background. *)
Lemma generate_svg_emitted :
  generate_svg self =
  (t <- emitted self ;; Ok (drawing_of (icon_size self) t)).
Proof.
  unfold generate_svg. rewrite emitted_unfold. unfold drawing_of.
  rewrite <- (map_snd_enumerate (meshes self)) at 1.
  rewrite <- (sorted_map mean_z snd). fold order.
  rewrite for_each_map.
  induction order as [|e l IH]; simpl; [reflexivity|].
  unfold block at 1.
  destruct (mesh_polygons (icon_size self) (fst (snd e)) (snd (snd e)))
    as [ps| |]; simpl; try reflexivity.
  destruct (for_each _ l) as [a1| |]; destruct (for_each block l) as [a2| |];
    simpl in *; try discriminate; try reflexivity; try assumption.
  injection IH as IH. f_equal. f_equal.
  rewrite !map_app, IH. f_equal. rewrite map_map. reflexivity.
Qed.
End SceneLoop.




(** * The claims about the render order and culling *)



(** C2.  A face whose normal has a negative Z component leaves no polygon in
    the drawing: no entry of the run has its mesh and its face index. *)
Theorem back_face_culling (self : IconGenerator) :
  valid_faces self ->
  exists t,
    emitted self = Ok t /\
    generate_svg self = Ok (drawing_of (icon_size self) t) /\
    forall i e fi face,
      nth_error (meshes self) i = Some e ->
      nth_error (faces (fst e)) fi = Some face ->
      back_face (fst e) face ->
      forall p, ~ In (i, fi, p) t.
Proof.
  intros Hv. destruct (emitted_total self Hv) as [t Ht].
  exists t. split; [exact Ht|]. split.
  - rewrite generate_svg_emitted, Ht. reflexivity.
  - intros i e fi face He Hf (vs & Hvs & Hneg) p Hin.
    apply (emitted_In self t Ht) in Hin as (e' & face' & He' & Hf' & Hp).
    rewrite He in He'. injection He' as <-.
    rewrite Hf in Hf'. injection Hf' as <-.
    rewrite (face_polygon_culled _ _ _ _ _ Hvs Hneg) in Hp. discriminate.
Qed.

Lemma mesh_polygons_culled (sz : Z) (mesh : Trimesh) (layer : Z) :
  Forall (back_face mesh) (faces mesh) -> mesh_polygons sz mesh layer = Ok [].
Proof.
  intros H. unfold mesh_polygons, enumerate.
  generalize 0%nat.
  assert (G : forall s, exists rs,
             for_each (fun f => p <- face_polygon sz mesh layer (snd f) ;; Ok (fst f, p))
                      (combine (seq s (length (faces mesh))) (faces mesh)) = Ok rs /\
             kept rs = []).
  { induction H as [|face t (vs & Hvs & Hneg) _ IH]; intros s; simpl.
    - exists []. auto.
    - rewrite (face_polygon_culled _ _ _ _ _ Hvs Hneg). simpl.
      destruct (IH (S s)) as (rs & -> & Hk). simpl.
      exists ((s, None) :: rs). split; [reflexivity|exact Hk]. }
  intros s. destruct (G s) as (rs & -> & Hk). simpl. now rewrite Hk.
Qed.

(** C8.  A scene with no mesh, or with no face that survives culling, renders
    without error to a drawing that has the background and no polygon; and
    the bounds of a scene with no mesh are returned without error. *)
Theorem empty_scene_renders (self : IconGenerator) :
  no_front_face self ->
  generate_svg self = Ok [Rect (icon_size self)] /\
  emitted self = Ok [] /\
  (meshes self = [] -> compute_bounds self = Ok (V3 0 0 0, V3 1 1 1)).
Proof.
  intros H.
  assert (He : emitted self = Ok []).
  { unfold emitted.
    assert (G : Forall (fun e : nat * (Trimesh * Z) =>
                  Forall (back_face (fst (snd e))) (faces (fst (snd e))))
                  (sorted (fun e => mean_z (snd e)) (enumerate (meshes self)))).
    { apply Forall_forall. intros [i e] Hin. apply sorted_In in Hin.
      apply enumerate_In, nth_error_In in Hin.
      unfold no_front_face in H. rewrite Forall_forall in H. now apply H. }
    induction G as [|e l He _ IH]; simpl; [reflexivity|].
    rewrite (mesh_polygons_culled _ _ _ He). simpl.
    destruct (for_each _ l) as [added| |]; simpl in *; try discriminate.
    injection IH as ->. reflexivity. }
  split; [|split; [exact He|]].
  - rewrite generate_svg_emitted, He. reflexivity.
  - unfold compute_bounds. intros ->. reflexivity.
Qed.

(** * Shading *)


Lemma norm_nonneg (a : vec3) : 0 <= norm a.
Proof. apply sqrt_pos. Qed.


Lemma dot_vdiv (a b : vec3) (k m : R) :
  k <> 0 -> m <> 0 -> dot (vdiv a k) (vdiv b m) = dot a b / (k * m).
Proof. intros Hk Hm. unfold dot, vdiv. simpl. field. auto. Qed.






(** * The tilt *)

Lemma rotation_matrix_x (t : R) :
  transformations.rotation_matrix t (V3 1 0 0)
  = M3 (V3 1 0 0) (V3 0 (cos t) (- sin t)) (V3 0 (sin t) (cos t)).
Proof.
  unfold transformations.rotation_matrix, transformations.unit_vector,
    transformations.diag, transformations.outer_scaled, transformations.skew,
    mat_add, vadd, vscale, vdiv, dot. simpl.
  replace (1 * 1 + 0 * 0 + 0 * 0) with 1 by ring. rewrite sqrt_1.
  f_equal; f_equal; field.
Qed.

Lemma rotation_matrix_y (t : R) :
  transformations.rotation_matrix t (V3 0 1 0)
  = M3 (V3 (cos t) 0 (sin t)) (V3 0 1 0) (V3 (- sin t) 0 (cos t)).
Proof.
  unfold transformations.rotation_matrix, transformations.unit_vector,
    transformations.diag, transformations.outer_scaled, transformations.skew,
    mat_add, vadd, vscale, vdiv, dot. simpl.
  replace (0 * 0 + 1 * 1 + 0 * 0) with 1 by ring. rewrite sqrt_1.
  f_equal; f_equal; field.
Qed.

(** The matrix [transform_meshes] builds acts as the Y rotation followed by the
    X rotation. *)
Lemma transform_vertex (a b : R) (v : vec3) :
  mat_vec (transformations.concatenate_matrices
             [transformations.rotation_matrix a (V3 1 0 0);
              transformations.rotation_matrix b (V3 0 1 0)]) v
  = rot_x a (rot_y b v).
Proof.
  rewrite rotation_matrix_x, rotation_matrix_y.
  unfold transformations.concatenate_matrices, transformations.identity,
    transformations.diag, mat_vec, mat_mul, rot_x, rot_y, dot, col0, col1, col2.
  simpl. f_equal; ring.
Qed.

(** C5, as the code has it.  [transform_meshes] applies one rotation to every
    vertex: the product [rx . ry], which turns a vertex about the Y axis by
    [tilt_left] first and about the X axis by [tilt_forward] second. *)
Theorem transform_meshes_rotation (tilt_forward tilt_left : R)
    (self : IconGenerator) :
  transform_meshes tilt_forward tilt_left self
  = map_meshes (fun v => rot_x (radians tilt_forward)
                                (rot_y (radians tilt_left) v)) self.
Proof.
  unfold transform_meshes, map_meshes, apply_transform, set_vertices.
  f_equal. apply map_ext. intros [mesh layer]. simpl. f_equal. f_equal.
  apply map_ext. intros v. apply transform_vertex.
Qed.

Lemma radians_90 : radians 90 = PI / 2.
Proof. unfold radians. field. Qed.

(** C5, as the claim has it: with both angles at 90 degrees the vertex
    (1, 0, 0) goes to (0, 1, 0), while the X rotation followed by the Y
    rotation would send it to (0, 0, -1). *)
Lemma transform_meshes_not_y_after_x :
  transform_meshes 90 90 one_vertex_scene
  <> map_meshes (fun v => rot_y (radians 90) (rot_x (radians 90) v))
                one_vertex_scene.
Proof.
  unfold transform_meshes, apply_transform, map_meshes, one_vertex_scene,
    set_vertices. simpl.
  rewrite transform_vertex. unfold rot_x, rot_y. simpl.
  rewrite radians_90, cos_PI2, sin_PI2.
  intros H. injection H as _ Hy _. lra.
Qed.

(** * The fit into the canvas *)

Section Monotone.
Variable f : R -> R.
Hypothesis f_mono : forall x y, x <= y -> f x <= f y.




End Monotone.

Lemma fold_left_Rmin_le (t : list R) (a : R) : fold_left Rmin t a <= a.
Proof.
  revert a. induction t as [|x t IH]; intros a; simpl; [lra|].
  eapply Rle_trans; [apply IH|apply Rmin_l].
Qed.

Lemma fold_left_Rmax_ge (t : list R) (a : R) : a <= fold_left Rmax t a.
Proof.
  revert a. induction t as [|x t IH]; intros a; simpl; [lra|].
  eapply Rle_trans; [apply Rmax_l|apply IH].
Qed.


Lemma np_min_axis0_Ok (a : list vec3) (m : vec3) :
  np_min_axis0 a = Ok m ->
  np_min (map vx a) = Ok (vx m) /\ np_min (map vy a) = Ok (vy m) /\
  np_min (map vz a) = Ok (vz m).
Proof.
  unfold np_min_axis0. intros H.
  apply bind_Ok in H as (x & Hx & H). apply bind_Ok in H as (y & Hy & H).
  apply bind_Ok in H as (z & Hz & H). injection H as <-. auto.
Qed.

Lemma np_max_axis0_Ok (a : list vec3) (m : vec3) :
  np_max_axis0 a = Ok m ->
  np_max (map vx a) = Ok (vx m) /\ np_max (map vy a) = Ok (vy m) /\
  np_max (map vz a) = Ok (vz m).
Proof.
  unfold np_max_axis0. intros H.
  apply bind_Ok in H as (x & Hx & H). apply bind_Ok in H as (y & Hy & H).
  apply bind_Ok in H as (z & Hz & H). injection H as <-. auto.
Qed.


Lemma compute_bounds_cons (self : IconGenerator) (b : vec3 * vec3) :
  meshes self <> [] ->
  (compute_bounds self = Ok b <->
   np_min_axis0 (all_vertices (meshes self)) = Ok (fst b) /\
   np_max_axis0 (all_vertices (meshes self)) = Ok (snd b)).
Proof.
  unfold compute_bounds. destruct (meshes self) as [|e t] eqn:E; [congruence|].
  intros _. split.
  - intros H. apply bind_Ok in H as (mn & Hmn & H).
    apply bind_Ok in H as (mx & Hmx & H). injection H as <-. auto.
  - intros [-> ->]. simpl. now destruct b.
Qed.





Lemma normalize_meshes_zero (self : IconGenerator) (mn mx : vec3) :
  compute_bounds self = Ok (mn, mx) ->
  bounds_max_size mn mx = 0 ->
  normalize_meshes self = NonFinite.
Proof.
  intros Hb He. unfold normalize_meshes. rewrite Hb. simpl.
  unfold np_true_divide.
  destruct (Req_dec_T (bounds_max_size mn mx) 0); [reflexivity|contradiction].
Qed.






(** ** The scene of two points *)

Lemma two_point_bounds (size : Z) :
  compute_bounds (two_point_scene size) = Ok (V3 0 0 0, V3 1 1 0).
Proof.
  unfold compute_bounds, two_point_scene, all_vertices, np_min_axis0,
    np_max_axis0. simpl.
  rewrite (Rmin_left 0 1), (Rmin_left 0 0), (Rmax_right 0 1), (Rmax_left 0 0)
    by lra.
  reflexivity.
Qed.




(** * The layer number and the order *)








(** ** The example scenes *)

Lemma triangle_valid (z : R) : Forall (valid_face (triangle z)) (faces (triangle z)).
Proof. repeat constructor; simpl; lia. Qed.

Lemma triangle_front (sz : Z) (z : R) (layer : Z) :
  exists p, face_polygon sz (triangle z) layer (0, 1, 2)%nat = Ok (Some p).
Proof.
  unfold face_polygon, face_vertices, getitem. simpl.
  destruct (Rlt_dec _ 0) as [H|_]; [lra|eauto].
Qed.

Lemma back_triangle_back (z : R) :
  Forall (back_face (back_triangle z)) (faces (back_triangle z)).
Proof.
  repeat constructor. unfold back_face, face_vertices, getitem. simpl.
  eexists. split; [reflexivity|]. simpl. lra.
Qed.


Lemma tie_scene_has_vertices (l0 l1 : Z) : has_vertices (tie_scene l0 l1).
Proof. repeat constructor; discriminate. Qed.




(** * Runs on the example scenes *)

(** The scene with no mesh: the drawing is the background alone. *)
Example no_mesh_run (size : Z) :
  generate_svg {| icon_size := size; meshes := [] |} = Ok [Rect size] /\
  normalize_meshes {| icon_size := size; meshes := [] |}
  = Ok {| icon_size := size; meshes := [] |}.
Proof.
  split; [reflexivity|].
  unfold normalize_meshes, compute_bounds, np_true_divide. simpl.
  destruct (Req_dec_T _ 0) as [H|_]; [|reflexivity].
  unfold bounds_max_size, vsub in H. simpl in H.
  rewrite Rmax_left in H by lra. lra.
Qed.

(** A scene whose meshes have no vertex at all has no bounds: [np.min] of the
    empty array raises. *)
Example no_vertex_bounds :
  compute_bounds {| icon_size := 100;
                    meshes := [({| vertices := []; faces := [] |}, 1%Z)] |}
  = Raise ValueError.
Proof. reflexivity. Qed.

(** A face that names a vertex the mesh does not have stops the render. *)
Example bad_face_run :
  generate_svg {| icon_size := 100;
                  meshes := [({| vertices := [V3 0 0 0];
                                 faces := [(0, 1, 2)%nat] |}, 1%Z)] |}
  = Raise IndexError.
Proof. reflexivity. Qed.

(** A single point has no planar extent: nothing stops the division by zero
    and the normalized vertices are not numbers. *)
Example one_vertex_not_normalized :
  compute_bounds one_vertex_scene = Ok (V3 1 0 0, V3 1 0 0) /\
  normalize_meshes one_vertex_scene = NonFinite.
Proof.
  assert (H : compute_bounds one_vertex_scene = Ok (V3 1 0 0, V3 1 0 0))
    by reflexivity.
  split; [exact H|].
  apply (normalize_meshes_zero _ _ _ H).
  unfold bounds_max_size, vsub. simpl. rewrite Rmax_left by lra. lra.
Qed.

Lemma mean_z_triangle (z : R) (layer : Z) : mean_z (triangle z, layer) = z.
Proof. unfold mean_z, np_mean. simpl. field. Qed.

(** The scene of two layers: the mesh added second lies lower and its polygon
    is drawn first. *)
Example two_layer_run :
  exists p0 p1,
    emitted two_layer_scene = Ok [(1%nat, 0%nat, p1); (0%nat, 0%nat, p0)] /\
    generate_svg two_layer_scene = Ok [Rect 100; Polygon p1; Polygon p0] /\
    points p1 = [(0, 100 - 0); (1, 100 - 0); (0, 100 - 1)] /\
    fill p1 = face_color 1 (compute_lighting (V3 0 0 1) light_dir).
Proof.
  destruct (triangle_front 100 10 11) as [p0 Hp0].
  assert (Hp1 : face_polygon 100 (triangle (-10)) 1 (0, 1, 2)%nat
                = Ok (Some {| points := [(0, 100 - 0); (1, 100 - 0); (0, 100 - 1)];
                              fill := face_color 1
                                        (compute_lighting (V3 0 0 1) light_dir) |})).
  { unfold face_polygon, face_vertices, getitem, face_normal, cross, vsub,
      project. simpl.
    destruct (Rlt_dec _ 0) as [H|_]; [lra|].
    repeat f_equal; ring. }
  assert (He : emitted two_layer_scene
               = Ok [(1%nat, 0%nat,
                      {| points := [(0, 100 - 0); (1, 100 - 0); (0, 100 - 1)];
                         fill := face_color 1
                                   (compute_lighting (V3 0 0 1) light_dir) |});
                     (0%nat, 0%nat, p0)]).
  { unfold emitted, two_layer_scene, enumerate. simpl.
    rewrite !mean_z_triangle.
    destruct (Rlt_dec (-10) 10) as [_|H]; [|lra].
    simpl. unfold mesh_polygons, enumerate. simpl.
    rewrite Hp1, Hp0. reflexivity. }
  eexists p0, _. split; [exact He|].
  split; [rewrite generate_svg_emitted, He; reflexivity|].
  split; reflexivity.
Qed.



Lemma back_face_culling_witness :
  exists t,
    emitted hidden_scene = Ok t /\
    generate_svg hidden_scene = Ok (drawing_of 100 t) /\
    forall i e fi face,
      nth_error (meshes hidden_scene) i = Some e ->
      nth_error (faces (fst e)) fi = Some face ->
      back_face (fst e) face ->
      forall p, ~ In (i, fi, p) t.
Proof.
  apply (back_face_culling hidden_scene).
  repeat constructor; simpl; lia.
Defined.

Lemma empty_scene_witness :
  generate_svg hidden_scene = Ok [Rect 100] /\
  emitted hidden_scene = Ok [] /\
  (meshes hidden_scene = [] ->
   compute_bounds hidden_scene = Ok (V3 0 0 0, V3 1 1 1)).
Proof.
  apply (empty_scene_renders hidden_scene).
  constructor; [apply back_triangle_back|constructor].
Defined.




(** * More about the tilt *)

Lemma transform_meshes_as_map (tilt_forward tilt_left : R) (self : IconGenerator) :
  transform_meshes tilt_forward tilt_left self
  = map_meshes (fun v => rot_x (radians tilt_forward)
                                (rot_y (radians tilt_left) v)) self.
Proof.
  unfold transform_meshes, map_meshes, apply_transform, set_vertices.
  f_equal. apply map_ext. intros [mesh layer]. simpl. f_equal. f_equal.
  apply map_ext. intros v. apply transform_vertex.
Qed.

Lemma cos2_sin2 (t : R) : cos t * cos t + sin t * sin t = 1.
Proof. pose proof (sin2_cos2 t) as H. unfold Rsqr in H. lra. Qed.

Lemma rot_x_dot (t : R) (a b : vec3) : dot (rot_x t a) (rot_x t b) = dot a b.
Proof.
  unfold dot, rot_x. simpl.
  replace (vx a * vx b + (cos t * vy a - sin t * vz a) * (cos t * vy b - sin t * vz b)
           + (sin t * vy a + cos t * vz a) * (sin t * vy b + cos t * vz b))
    with (vx a * vx b + (cos t * cos t + sin t * sin t) * (vy a * vy b + vz a * vz b))
    by ring.
  rewrite cos2_sin2. ring.
Qed.

Lemma rot_y_dot (t : R) (a b : vec3) : dot (rot_y t a) (rot_y t b) = dot a b.
Proof.
  unfold dot, rot_y. simpl.
  replace ((cos t * vx a + sin t * vz a) * (cos t * vx b + sin t * vz b) + vy a * vy b
           + (- sin t * vx a + cos t * vz a) * (- sin t * vx b + cos t * vz b))
    with (vy a * vy b + (cos t * cos t + sin t * sin t) * (vx a * vx b + vz a * vz b))
    by ring.
  rewrite cos2_sin2. ring.
Qed.

Lemma rot_x_vsub (t : R) (a b : vec3) :
  vsub (rot_x t a) (rot_x t b) = rot_x t (vsub a b).
Proof. unfold vsub, rot_x. simpl. f_equal; ring. Qed.

Lemma rot_y_vsub (t : R) (a b : vec3) :
  vsub (rot_y t a) (rot_y t b) = rot_y t (vsub a b).
Proof. unfold vsub, rot_y. simpl. f_equal; ring. Qed.

Lemma rot_x_0 (v : vec3) : rot_x 0 v = v.
Proof.
  unfold rot_x. rewrite cos_0, sin_0. destruct v as [x y z]. simpl.
  f_equal; ring.
Qed.

Lemma rot_y_0 (v : vec3) : rot_y 0 v = v.
Proof.
  unfold rot_y. rewrite cos_0, sin_0. destruct v as [x y z]. simpl.
  f_equal; ring.
Qed.

Lemma radians_0 : radians 0 = 0.
Proof. unfold radians. field. Qed.

Lemma map_meshes_ext (f g : vec3 -> vec3) (self : IconGenerator) :
  (forall v, f v = g v) -> map_meshes f self = map_meshes g self.
Proof.
  intros H. unfold map_meshes, set_vertices. f_equal.
  apply map_ext. intros e. f_equal. f_equal. apply map_ext. exact H.
Qed.

Lemma map_meshes_id (self : IconGenerator) : map_meshes (fun v => v) self = self.
Proof.
  destruct self as [sz ms]. unfold map_meshes, set_vertices. simpl. f_equal.
  induction ms as [|[[vs fs] l] t IH]; simpl; [reflexivity|].
  now rewrite map_id, IH.
Qed.

Lemma map_meshes_compose (f g : vec3 -> vec3) (self : IconGenerator) :
  map_meshes f (map_meshes g self) = map_meshes (fun v => f (g v)) self.
Proof.
  unfold map_meshes, set_vertices. simpl. f_equal. rewrite map_map.
  apply map_ext. intros e. simpl. now rewrite map_map.
Qed.

(** X1.  The tilt is a rigid motion: one map is applied to every vertex of
    every mesh, and it keeps the dot product of any two vectors and the
    distance between any two points. *)
Theorem transform_meshes_rigid (tilt_forward tilt_left : R) (self : IconGenerator) :
  exists T : vec3 -> vec3,
    transform_meshes tilt_forward tilt_left self = map_meshes T self /\
    (forall a b, dot (T a) (T b) = dot a b) /\
    (forall a b, norm (vsub (T a) (T b)) = norm (vsub a b)).
Proof.
  exists (fun v => rot_x (radians tilt_forward) (rot_y (radians tilt_left) v)).
  split; [apply transform_meshes_as_map|]. split.
  - intros a b. now rewrite rot_x_dot, rot_y_dot.
  - intros a b. unfold norm.
    now rewrite rot_x_vsub, rot_y_vsub, rot_x_dot, rot_y_dot.
Qed.

(** X2.  With both angles at zero the tilt changes nothing. *)
Theorem transform_meshes_zero (self : IconGenerator) :
  transform_meshes 0 0 self = self.
Proof.
  rewrite transform_meshes_as_map, radians_0.
  rewrite (map_meshes_ext _ (fun v => v)); [apply map_meshes_id|].
  intros v. now rewrite rot_y_0, rot_x_0.
Qed.

(** X3.  Tilting by both angles at once is tilting left alone and then
    tilting forward alone. *)
Theorem transform_meshes_split (tilt_forward tilt_left : R) (self : IconGenerator) :
  transform_meshes tilt_forward tilt_left self
  = transform_meshes tilt_forward 0 (transform_meshes 0 tilt_left self).
Proof.
  rewrite !transform_meshes_as_map, radians_0, map_meshes_compose.
  apply map_meshes_ext. intros v. now rewrite rot_y_0, rot_x_0.
Qed.

(** * More about the bounds *)

Lemma fold_left_Rmin_lower (t : list R) (a x : R) :
  In x (a :: t) -> fold_left Rmin t a <= x.
Proof.
  revert a. induction t as [|y t IH]; intros a H; simpl.
  - destruct H as [->|[]]. lra.
  - destruct H as [->|[->|H]].
    + eapply Rle_trans; [apply fold_left_Rmin_le|apply Rmin_l].
    + eapply Rle_trans; [apply fold_left_Rmin_le|apply Rmin_r].
    + apply IH. now right.
Qed.

Lemma fold_left_Rmax_upper (t : list R) (a x : R) :
  In x (a :: t) -> x <= fold_left Rmax t a.
Proof.
  revert a. induction t as [|y t IH]; intros a H; simpl.
  - destruct H as [->|[]]. lra.
  - destruct H as [->|[->|H]].
    + eapply Rle_trans; [apply Rmax_l|apply fold_left_Rmax_ge].
    + eapply Rle_trans; [apply Rmax_r|apply fold_left_Rmax_ge].
    + apply IH. now right.
Qed.

Lemma fold_left_Rmin_In (t : list R) (a : R) : In (fold_left Rmin t a) (a :: t).
Proof.
  revert a. induction t as [|y t IH]; intros a; simpl; [now left|].
  destruct (IH (Rmin a y)) as [H|H]; [|now right; right].
  rewrite <- H. unfold Rmin. destruct (Rle_dec a y); [now left|right; now left].
Qed.

Lemma fold_left_Rmax_In (t : list R) (a : R) : In (fold_left Rmax t a) (a :: t).
Proof.
  revert a. induction t as [|y t IH]; intros a; simpl; [now left|].
  destruct (IH (Rmax a y)) as [H|H]; [|now right; right].
  rewrite <- H. unfold Rmax. destruct (Rle_dec a y); [right; now left|now left].
Qed.

Lemma np_min_spec (l : list R) (m : R) :
  np_min l = Ok m -> In m l /\ forall x, In x l -> m <= x.
Proof.
  destruct l as [|a t]; simpl; [discriminate|].
  intros H. injection H as <-. split.
  - apply fold_left_Rmin_In.
  - intros x Hx. now apply fold_left_Rmin_lower.
Qed.

Lemma np_max_spec (l : list R) (m : R) :
  np_max l = Ok m -> In m l /\ forall x, In x l -> x <= m.
Proof.
  destruct l as [|a t]; simpl; [discriminate|].
  intros H. injection H as <-. split.
  - apply fold_left_Rmax_In.
  - intros x Hx. now apply fold_left_Rmax_upper.
Qed.

Lemma all_vertices_In (ms : list (Trimesh * Z)) (v : vec3) :
  In v (all_vertices ms) <-> exists e, In e ms /\ In v (vertices (fst e)).
Proof.
  unfold all_vertices. rewrite in_concat. split.
  - intros (l & Hl & Hv). apply in_map_iff in Hl as (e & <- & He). eauto.
  - intros (e & He & Hv). exists (vertices (fst e)). split; [|exact Hv].
    apply in_map_iff. eauto.
Qed.

(** The box of a scene that has a mesh holds every vertex. *)
Lemma bounds_hold (self : IconGenerator) (mn mx : vec3) :
  meshes self <> [] ->
  compute_bounds self = Ok (mn, mx) ->
  forall v, In v (all_vertices (meshes self)) ->
    vx mn <= vx v <= vx mx /\ vy mn <= vy v <= vy mx /\ vz mn <= vz v <= vz mx.
Proof.
  intros Hne Hb v Hv.
  apply (compute_bounds_cons self (mn, mx) Hne) in Hb as [Hmn Hmx].
  simpl in Hmn, Hmx.
  apply np_min_axis0_Ok in Hmn as (Hx & Hy & Hz).
  apply np_max_axis0_Ok in Hmx as (Gx & Gy & Gz).
  apply np_min_spec in Hx as [_ Hx], Hy as [_ Hy], Hz as [_ Hz].
  apply np_max_spec in Gx as [_ Gx], Gy as [_ Gy], Gz as [_ Gz].
  repeat split;
    first [apply Hx|apply Hy|apply Hz|apply Gx|apply Gy|apply Gz];
    now apply in_map.
Qed.

(** X4.  The bounds of a scene that has a mesh are the tight box of its
    vertices: every vertex of every mesh lies between [bounds_min] and
    [bounds_max] on each axis, and each of the six bounds is the coordinate of
    some vertex. *)
Theorem compute_bounds_tight (self : IconGenerator) (mn mx : vec3) :
  meshes self <> [] ->
  compute_bounds self = Ok (mn, mx) ->
  (forall e v, In e (meshes self) -> In v (vertices (fst e)) ->
     vx mn <= vx v <= vx mx /\ vy mn <= vy v <= vy mx /\ vz mn <= vz v <= vz mx) /\
  (exists a b c d e f,
     let vs := all_vertices (meshes self) in
     In a vs /\ In b vs /\ In c vs /\ In d vs /\ In e vs /\ In f vs /\
     mn = V3 (vx a) (vy b) (vz c) /\ mx = V3 (vx d) (vy e) (vz f)).
Proof.
  intros Hne Hb. split.
  - intros e v He Hv. apply (bounds_hold self mn mx Hne Hb).
    apply all_vertices_In. eauto.
  - apply (compute_bounds_cons self (mn, mx) Hne) in Hb as [Hmn Hmx].
    simpl in Hmn, Hmx.
    apply np_min_axis0_Ok in Hmn as (Hx & Hy & Hz).
    apply np_max_axis0_Ok in Hmx as (Gx & Gy & Gz).
    apply np_min_spec in Hx as [Hx _], Hy as [Hy _], Hz as [Hz _].
    apply np_max_spec in Gx as [Gx _], Gy as [Gy _], Gz as [Gz _].
    apply in_map_iff in Hx as (a & Ea & Ha), Hy as (b & Eb & Hb'),
      Hz as (c & Ec & Hc), Gx as (d & Ed & Hd), Gy as (e & Ee & He),
      Gz as (f & Ef & Hf).
    exists a, b, c, d, e, f. simpl. repeat split; auto.
    + destruct mn. simpl in *. congruence.
    + destruct mx. simpl in *. congruence.
Qed.

Lemma np_min_nil_iff (l : list R) : np_min l = Raise ValueError <-> l = [].
Proof. destruct l; simpl; split; intros H; try reflexivity; discriminate. Qed.


(** * More about the fit into the canvas *)







(** ** The render of a scene moved by a scaling with a positive factor *)

Section SortedExt.
Context {A : Type} (k1 k2 : A -> R).


End SortedExt.






Section Scaling.
Variables (cx cy cz s hx hy hz : R).
Hypothesis s_pos : 0 < s.

Let g (v : vec3) : vec3 :=
  V3 ((vx v - cx) * s + hx) ((vy v - cy) * s + hy) ((vz v - cz) * s + hz).




End Scaling.


(** * More about the shading *)

Lemma lighting_denominators (normal light : vec3) :
  0 < norm normal + 1e-10 /\ 0 < norm light + 1e-10.
Proof.
  pose proof (norm_nonneg normal). pose proof (norm_nonneg light). lra.
Qed.

(** X9.  A face that does not look towards the light, a face with no area
    among them, gets the ambient intensity alone: when the dot product of the
    normal and the light direction is not positive, [compute_lighting] is
    0.3. *)
Theorem lighting_ambient (normal light : vec3) :
  dot normal light <= 0 -> compute_lighting normal light = 0.3.
Proof.
  intros Hd. unfold compute_lighting.
  destruct (lighting_denominators normal light) as [Hk Hm].
  rewrite dot_vdiv by lra.
  assert (H : dot normal light / ((norm normal + 1e-10) * (norm light + 1e-10)) <= 0).
  { unfold Rdiv. rewrite <- (Rmult_0_l (/ ((norm normal + 1e-10) * (norm light + 1e-10)))).
    apply Rmult_le_compat_r; [|exact Hd].
    apply Rlt_le, Rinv_0_lt_compat. apply Rmult_lt_0_compat; lra. }
  unfold max0. destruct (Rlt_dec 0 _); lra.
Qed.


Lemma trunc_le (x y : R) : x <= y -> (trunc x <= trunc y)%Z.
Proof.
  intros H. unfold trunc.
  destruct (Rle_dec 0 x), (Rle_dec 0 y); try lra.
  - now apply Zfloor_le.
  - apply Z.le_trans with 0%Z.
    + pose proof (Zceil_bound x) as [Hc _].
      assert (IZR (Zceil x) < 1) by lra. apply lt_IZR in H0. lia.
    + apply (Zfloor_lub 0). lra.
  - now apply Zceil_le.
Qed.


Lemma clip_le (a b : Z) : (a <= b)%Z -> (clip a <= clip b)%Z.
Proof. unfold clip. lia. Qed.


Lemma face_color_channels (layer_num : Z) (intensity : R) :
  face_color layer_num intensity
  = (channel 0.2 layer_num intensity, channel 0.4 layer_num intensity,
     channel 0.6 layer_num intensity).
Proof.
  unfold face_color, channel.
  replace (1 - 0.2) with 0.8 by lra. replace (1 - 0.4) with 0.6 by lra.
  replace (1 - 0.6) with 0.4 by lra. reflexivity.
Qed.


Lemma channel_share_le (k1 k2 : R) (layer_num : Z) (intensity : R) :
  k1 <= k2 -> (layer_num <= 11)%Z -> 0 <= intensity ->
  (channel k1 layer_num intensity <= channel k2 layer_num intensity)%Z.
Proof.
  intros Hk Hl Hi. unfold channel. apply clip_le, trunc_le.
  apply Rmult_le_compat_r; [exact Hi|]. apply IZR_le, trunc_le.
  apply IZR_le in Hl.
  assert (0 <= (k2 - k1) * (1 - IZR layer_num / 11.0))
    by (apply Rmult_le_pos; lra).
  lra.
Qed.



(** X11.  Up to layer 11 the colour is blue-leaning: for an intensity that is
    not negative, red is at most green and green is at most blue. *)
Theorem face_color_blue_leaning (layer_num : Z) (intensity : R) :
  (layer_num <= 11)%Z -> 0 <= intensity ->
  let '(r, g, b) := face_color layer_num intensity in
  (r <= g <= b)%Z.
Proof.
  intros Hl Hi. rewrite face_color_channels.
  split; apply channel_share_le; auto; lra.
Qed.


(** * More about the render *)










Lemma is_back_face_None (sz : Z) (mesh : Trimesh) (layer : Z) (face : Face)
    (o : option Polygon2D) :
  face_polygon sz mesh layer face = Ok o ->
  is_back_face mesh face = match o with None => true | Some _ => false end.
Proof.
  unfold face_polygon, is_back_face.
  destruct (face_vertices mesh face) as [[[v0 v1] v2]| |]; simpl; try discriminate.
  destruct (Rlt_dec _ 0); intros H; injection H as <-; reflexivity.
Qed.

Lemma is_back_face_iff (mesh : Trimesh) (face : Face) :
  is_back_face mesh face = true <-> back_face mesh face.
Proof.
  unfold is_back_face, back_face. split.
  - destruct (face_vertices mesh face) as [vs| |]; try discriminate.
    destruct (Rlt_dec _ 0); [eauto|discriminate].
  - intros (vs & -> & H). destruct (Rlt_dec _ 0); [reflexivity|contradiction].
Qed.

Lemma kept_count (sz : Z) (mesh : Trimesh) (layer : Z)
    (l : list (nat * Face)) (rs : list (nat * option Polygon2D)) :
  Forall2 (fun f r => (p <- face_polygon sz mesh layer (snd f) ;; Ok (fst f, p))
                      = Ok r) l rs ->
  (length (kept rs) + length (filter (is_back_face mesh) (map snd l))
   = length l)%nat.
Proof.
  induction 1 as [|[i f] r l' rs' Hr _ IH]; [reflexivity|].
  simpl in Hr. apply bind_Ok in Hr as (o & Ho & Hr). injection Hr as <-.
  unfold kept in *. simpl. rewrite (is_back_face_None _ _ _ _ _ Ho).
  destruct o; simpl; lia.
Qed.

Lemma mesh_polygons_count (sz : Z) (mesh : Trimesh) (layer : Z)
    (ps : list (nat * Polygon2D)) :
  mesh_polygons sz mesh layer = Ok ps ->
  (length ps + length (filter (is_back_face mesh) (faces mesh))
   = length (faces mesh))%nat.
Proof.
  unfold mesh_polygons. intros H.
  apply bind_Ok in H as (rs & Hrs & H). injection H as <-.
  apply for_each_Forall2, kept_count in Hrs.
  rewrite map_snd_enumerate in Hrs. unfold enumerate in Hrs.
  rewrite length_combine, length_seq, Nat.min_id in Hrs. exact Hrs.
Qed.

Lemma sum_perm {A : Type} (f : A -> nat) (l l' : list A) :
  Permutation l l' ->
  fold_right Nat.add 0%nat (map f l) = fold_right Nat.add 0%nat (map f l').
Proof.
  induction 1; simpl; lia.
Qed.

(** X14.  The drawing has the background and one polygon for each face that
    the back-face test keeps: the number of its polygons and the number of
    faces dropped add up to the count of faces that [generate_svg] prints,
    which is therefore too high as soon as one face is dropped. *)
Theorem drawing_size (self : IconGenerator) (d : list SvgElement) :
  generate_svg self = Ok d ->
  (length d + culled_faces self = 1 + reported_faces self)%nat.
Proof.
  rewrite generate_svg_emitted. intros H.
  apply bind_Ok in H as (t & Ht & H). injection H as <-.
  unfold drawing_of. simpl. rewrite length_map. f_equal.
  unfold emitted in Ht. apply bind_Ok in Ht as (added & Hadd & Ht).
  injection Ht as <-. apply for_each_Forall2 in Hadd.
  unfold culled_faces, reported_faces.
  pose proof (sorted_perm (fun e : nat * (Trimesh * Z) => mean_z (snd e))
                (enumerate (meshes self))) as Hp.
  apply (Permutation_map snd) in Hp. rewrite map_snd_enumerate in Hp.
  rewrite <- (sum_perm (fun m => length (filter (is_back_face (fst m)) (faces (fst m)))) _ _ Hp).
  rewrite <- (sum_perm (fun m => length (faces (fst m))) _ _ Hp).
  rewrite !map_map. clear Hp.
  induction Hadd as [|[i m] blk S added Hb _ IH]; [reflexivity|].
  simpl in Hb. apply bind_Ok in Hb as (ps & Hps & Hb). injection Hb as <-.
  apply mesh_polygons_count in Hps.
  simpl in *. rewrite length_app, length_map. lia.
Qed.


Section SortedUnique.
Context {A : Type} (key : A -> R).





End SortedUnique.


(** * The loader and the command line *)






Section LoaderFacts.
Variable glob : string -> list string.
Variable load : string -> option Trimesh.

Let attempt (n : Z) : list LogLine * option Trimesh :=
  try_patterns glob load n (patterns n).

Let layer_meshes (n : Z) : list (Trimesh * Z) :=
  match snd (attempt n) with Some mesh => [(mesh, n)] | None => [] end.

Let layer_log (n : Z) : list LogLine :=
  fst (attempt n) ++
  match snd (attempt n) with Some _ => [] | None => [NoFileFound n] end.

Lemma fold_load_layer (ls : list Z) (st : list LogLine * list (Trimesh * Z)) :
  fold_left (load_layer glob load) ls st
  = (fst st ++ flat_map layer_log ls, snd st ++ flat_map layer_meshes ls).
Proof.
  revert st. induction ls as [|n t IH]; intros [log ms];
    cbn [fold_left flat_map fst snd].
  - now rewrite !app_nil_r.
  - rewrite IH. unfold load_layer, layer_log, layer_meshes, attempt.
    cbn [fst snd].
    destruct (try_patterns glob load n (patterns n)) as [l [m|]];
      cbn [fst snd]; now rewrite <- !app_assoc.
Qed.

Lemma layer_meshes_layers (ls : list Z) :
  map snd (flat_map layer_meshes ls) = filter (loadable glob load) ls.
Proof.
  induction ls as [|n t IH]; [reflexivity|].
  cbn [flat_map filter]. rewrite map_app, IH.
  unfold layer_meshes, attempt, loadable.
  destruct (snd (try_patterns glob load n (patterns n))); reflexivity.
Qed.

Lemma load_stl_layers_meshes (ls : list Z) (self : IconGenerator) :
  let '(_, g, ok) := load_stl_layers glob load ls self in
  icon_size g = icon_size self /\
  meshes g = meshes self ++ flat_map layer_meshes ls /\
  ok = negb (length (meshes g) =? 0)%nat.
Proof.
  unfold load_stl_layers. rewrite fold_load_layer. cbn [fst snd icon_size meshes].
  auto.
Qed.

Lemma try_patterns_log (n : Z) (ps : list string) (m : Z) :
  ~ In (NoFileFound m) (fst (try_patterns glob load n ps)).
Proof.
  induction ps as [|p t IH]; simpl; [tauto|].
  destruct (glob p) as [|path rest]; [exact IH|].
  destruct (load path); simpl; [intros [H|[]]; discriminate|].
  intros [H|[H|H]]; try discriminate. auto.
Qed.

(** X17.  The loader appends and never removes or reorders: the scene
    afterwards is the scene before followed by one mesh for each requested
    layer number that could be loaded, in the order of the request (a number
    asked for twice is loaded twice), each paired with its number; and the
    value returned is true exactly when the scene was not empty before or one
    of the requested layers could be loaded. *)
Theorem load_stl_layers_appends (layer_numbers : list Z) (self : IconGenerator) :
  let '(_, g, ok) := load_stl_layers glob load layer_numbers self in
  icon_size g = icon_size self /\
  (exists new,
      meshes g = meshes self ++ new /\
      map snd new = filter (loadable glob load) layer_numbers) /\
  (ok = true <->
   meshes self <> [] \/
   exists n, In n layer_numbers /\ loadable glob load n = true).
Proof.
  pose proof (load_stl_layers_meshes layer_numbers self) as H.
  destruct (load_stl_layers glob load layer_numbers self) as [[log g] ok].
  destruct H as (Hsz & Hms & Hok).
  split; [exact Hsz|]. split.
  - exists (flat_map layer_meshes layer_numbers).
    split; [exact Hms|apply layer_meshes_layers].
  - rewrite Hok, Hms, length_app, <- (length_map snd (flat_map _ _)),
      layer_meshes_layers.
    rewrite negb_true_iff, Nat.eqb_neq. split.
    + intros H.
      destruct (meshes self) as [|m t]; [right|left; discriminate].
      simpl in H.
      destruct (filter (loadable glob load) layer_numbers) as [|n l] eqn:E;
        [contradiction|].
      assert (Hn : In n (filter (loadable glob load) layer_numbers))
        by (rewrite E; now left).
      apply filter_In in Hn. eauto.
    + intros [H|(n & Hn & Hl)].
      * destruct (meshes self); [congruence|simpl; lia].
      * assert (Hf : In n (filter (loadable glob load) layer_numbers))
          by (apply filter_In; auto).
        destruct (filter (loadable glob load) layer_numbers);
          [contradiction|simpl; lia].
Qed.

(** X18.  For one layer the patterns are tried in order and, of the files a
    pattern matches, the first alone: the mesh loaded is the first match of
    the first pattern whose first match loads, and a pattern whose first match
    fails to load is passed over even if a later match would load. *)
Theorem try_patterns_first (n : Z) (ps : list string) (mesh : Trimesh) :
  snd (try_patterns glob load n ps) = Some mesh <->
  exists before pattern after path others,
    ps = before ++ pattern :: after /\
    glob pattern = path :: others /\
    load path = Some mesh /\
    Forall (fun p => match glob p with
                     | [] => True
                     | first :: _ => load first = None
                     end) before.
Proof.
  split.
  - induction ps as [|p t IH]; simpl; [discriminate|].
    destruct (glob p) as [|path rest] eqn:Eg.
    + intros H. destruct (IH H) as (b & q & a & pth & o & -> & Hq & Hl & Hb).
      exists (p :: b), q, a, pth, o. repeat split; auto.
      constructor; [now rewrite Eg|exact Hb].
    + destruct (load path) as [m|] eqn:El; simpl.
      * intros H. injection H as <-.
        exists [], p, t, path, rest. repeat split; auto.
      * intros H. destruct (IH H) as (b & q & a & pth & o & -> & Hq & Hl & Hb).
        exists (p :: b), q, a, pth, o. repeat split; auto.
        constructor; [now rewrite Eg|exact Hb].
  - intros (b & q & a & pth & o & -> & Hq & Hl & Hb).
    induction Hb as [|p b Hp _ IH]; simpl.
    + now rewrite Hq, Hl.
    + destruct (glob p) as [|first rest]; [exact IH|].
      now rewrite Hp.
Qed.

(** X19.  Every requested layer is accounted for: the warning that no STL
    file was found for a layer number is printed exactly for the requested
    numbers that were not loaded. *)
Theorem load_stl_layers_warns (layer_numbers : list Z) (self : IconGenerator)
    (n : Z) :
  In (NoFileFound n) (fst (fst (load_stl_layers glob load layer_numbers self)))
  <-> In n layer_numbers /\ loadable glob load n = false.
Proof.
  unfold load_stl_layers. rewrite fold_load_layer. cbn [fst snd].
  rewrite !in_app_iff, in_flat_map. split.
  - intros [[[H|[]]|(m & Hm & Hin)]|[H|[]]]; try discriminate.
    unfold layer_log, attempt in Hin. apply in_app_iff in Hin as [Hin|Hin].
    + now apply try_patterns_log in Hin.
    + unfold loadable.
      destruct (snd (try_patterns glob load m (patterns m))) eqn:E;
        [contradiction|].
      destruct Hin as [Hin|[]]. injection Hin as <-. rewrite E. auto.
  - intros [Hn Hl]. left. right. exists n. split; [exact Hn|].
    unfold layer_log, attempt. apply in_app_iff. right.
    unfold loadable in Hl.
    destruct (snd (try_patterns glob load n (patterns n)));
      [discriminate|now left].
Qed.

Lemma main_cases (stl_dir_exists : bool) (layers : list Z) (size : Z)
    (tilt_forward tilt_left : R) :
  (main glob load stl_dir_exists layers size tilt_forward tilt_left = inl 1%Z /\
   (stl_dir_exists = false \/
    Forall (fun n => loadable glob load n = false) layers)) \/
  (exists g,
      main glob load stl_dir_exists layers size tilt_forward tilt_left
      = inr (g' <- normalize_meshes (transform_meshes tilt_forward tilt_left g) ;;
             generate_svg g') /\
      icon_size g = size /\ meshes g <> [] /\ stl_dir_exists = true /\
      map snd (meshes g) = filter (loadable glob load) layers).
Proof.
  unfold main. destruct stl_dir_exists; cbn [negb]; [|left; auto].
  pose proof (load_stl_layers_meshes layers {| icon_size := size; meshes := [] |})
    as H.
  destruct (load_stl_layers glob load layers _) as [[log g] ok].
  destruct H as (Hsz & Hms & Hok). cbn [icon_size meshes app] in Hsz, Hms.
  assert (Hl : map snd (meshes g) = filter (loadable glob load) layers)
    by (rewrite Hms; apply layer_meshes_layers).
  destruct ok; cbn [negb].
  - right. exists g. repeat split; auto.
    intros E. rewrite E in Hok. discriminate.
  - left. split; [reflexivity|]. right.
    symmetry in Hok. rewrite negb_false_iff, Nat.eqb_eq in Hok.
    rewrite <- (length_map snd), Hl in Hok.
    apply Forall_forall. intros n Hn.
    destruct (loadable glob load n) eqn:E; [|reflexivity].
    assert (Hf : In n (filter (loadable glob load) layers))
      by (apply filter_In; auto).
    destruct (filter (loadable glob load) layers); [contradiction|discriminate].
Qed.

(** X20.  The command returns 1 before rendering in two cases only: the STL
    directory does not exist, or none of the requested layers could be
    loaded.  A requested layer that is missing is not fatal as long as
    another one loads. *)
Theorem main_exit_code (stl_dir_exists : bool) (layers : list Z) (size : Z)
    (tilt_forward tilt_left : R) (code : Z) :
  main glob load stl_dir_exists layers size tilt_forward tilt_left = inl code
  <-> code = 1%Z /\
      (stl_dir_exists = false \/
       Forall (fun n => loadable glob load n = false) layers).
Proof.
  destruct (main_cases stl_dir_exists layers size tilt_forward tilt_left)
    as [[Hm Hc]|(g & Hm & _ & Hne & He & Hl)]; rewrite Hm.
  - split; [intros H; injection H as <-; auto|intros [-> _]; reflexivity].
  - split; [discriminate|]. intros [_ [H|H]]; [congruence|].
    exfalso. destruct (meshes g) as [|[m n] t]; [congruence|].
    simpl in Hl.
    assert (Hn : In n (filter (loadable glob load) layers))
      by (rewrite <- Hl; now left).
    apply filter_In in Hn as [Hn Hload].
    rewrite Forall_forall in H. rewrite (H n Hn) in Hload. discriminate.
Qed.

End LoaderFacts.

(** * More runs on the example scenes *)




Lemma hidden_scene_run : generate_svg hidden_scene = Ok [Rect 100].
Proof.
  unfold generate_svg, hidden_scene. simpl.
  now rewrite (mesh_polygons_culled 100 _ 1 (back_triangle_back 0)).
Qed.


Lemma compute_bounds_tight_witness :
  (forall e v, In e (meshes (two_point_scene 100)) -> In v (vertices (fst e)) ->
     vx (V3 0 0 0) <= vx v <= vx (V3 1 1 0) /\
     vy (V3 0 0 0) <= vy v <= vy (V3 1 1 0) /\
     vz (V3 0 0 0) <= vz v <= vz (V3 1 1 0)) /\
  (exists a b c d e f,
     let vs := all_vertices (meshes (two_point_scene 100)) in
     In a vs /\ In b vs /\ In c vs /\ In d vs /\ In e vs /\ In f vs /\
     V3 0 0 0 = V3 (vx a) (vy b) (vz c) /\ V3 1 1 0 = V3 (vx d) (vy e) (vz f)).
Proof.
  apply (compute_bounds_tight (two_point_scene 100) (V3 0 0 0) (V3 1 1 0)).
  - discriminate.
  - apply two_point_bounds.
Defined.




Lemma lighting_ambient_witness : compute_lighting (V3 (-1) 0 0) light_dir = 0.3.
Proof.
  apply (lighting_ambient (V3 (-1) 0 0) light_dir).
  unfold dot, light_dir. simpl. lra.
Defined.


Lemma face_color_blue_leaning_witness :
  let '(r, g, b) := face_color 1 1 in (r <= g <= b)%Z.
Proof.
  apply (face_color_blue_leaning 1 1); [lia|lra].
Defined.


Lemma drawing_size_witness :
  (length [Rect 100] + culled_faces hidden_scene
   = 1 + reported_faces hidden_scene)%nat.
Proof.
  apply (drawing_size hidden_scene [Rect 100]). apply hidden_scene_run.
Defined.




(** X22.  Every face that is not a back face is drawn, a face seen edge-on
    (normal Z exactly zero) among them: the run has a polygon for it, with the
    projections of its three vertices as points and the colour of its layer
    at its lighting as fill. *)
Theorem front_faces_drawn (self : IconGenerator) (t : list (nat * nat * Polygon2D))
    (i fi : nat) (e : Trimesh * Z) (face : Face) (v0 v1 v2 : vec3) :
  emitted self = Ok t ->
  nth_error (meshes self) i = Some e ->
  nth_error (faces (fst e)) fi = Some face ->
  face_vertices (fst e) face = Ok (v0, v1, v2) ->
  0 <= vz (face_normal (v0, v1, v2)) ->
  In (i, fi,
      {| points := [project (icon_size self) v0; project (icon_size self) v1;
                    project (icon_size self) v2];
         fill := face_color (snd e)
                   (compute_lighting (face_normal (v0, v1, v2)) light_dir) |}) t.
Proof.
  intros Ht He Hf Hvs Hn.
  apply (emitted_In self t Ht). exists e, face. repeat split; auto.
  unfold face_polygon. rewrite Hvs. cbn [bind].
  destruct (Rlt_dec _ 0) as [H|_]; [lra|reflexivity].
Qed.

Lemma front_faces_drawn_witness :
  exists t,
    emitted two_layer_scene = Ok t /\
    In (1%nat, 0%nat,
        {| points := [project 100 (V3 0 0 (-10)); project 100 (V3 1 0 (-10));
                      project 100 (V3 0 1 (-10))];
           fill := face_color 1
                     (compute_lighting
                        (face_normal (V3 0 0 (-10), V3 1 0 (-10), V3 0 1 (-10)))
                        light_dir) |}) t.
Proof.
  destruct two_layer_run as (p0 & p1 & He & _).
  eexists. split; [exact He|].
  apply (front_faces_drawn two_layer_scene _ 1 0 (triangle (-10), 1%Z) (0, 1, 2)%nat
           (V3 0 0 (-10)) (V3 1 0 (-10)) (V3 0 1 (-10)) He);
    try reflexivity.
  unfold face_normal, cross, vsub. simpl. lra.
Defined.

(** The patterns of layer 5; a negative number keeps its sign and gets no
    zero. *)
Example patterns_5 :
  patterns 5 = ["layer_05*.stl"; "*layer_05*.stl"; "*-05.stl"]%string /\
  format_02d 11 = "11"%string /\ format_02d (-5) = "-5"%string /\
  format_02d 123 = "123"%string.
Proof. repeat split; reflexivity. Qed.

(** Layers 1 and 3 asked of the directory that has layer 1 only. *)
Example one_file_run :
  load_stl_layers one_file_glob one_file_load [1%Z; 3%Z]
                  {| icon_size := 100; meshes := [] |}
  = ([LoadingFrom; LoadingLayer 1 "layer_01.stl"; NoFileFound 3; LoadedLayers 1],
     {| icon_size := 100; meshes := [(triangle 0, 1%Z)] |},
     true).
Proof. reflexivity. Qed.

(** No requested layer in the directory: the command returns 1. *)
Example nothing_loaded_run :
  main one_file_glob one_file_load true [3%Z; 5%Z] 100 30 30 = inl 1%Z.
Proof. reflexivity. Qed.
